(** * The ALM operator's dispatch loop ([alm/alm.go])

    A shallow embedding of the controller in [alm.go]: the event handler that
    feeds the work queue, the worker that drains it and calls [sync], and
    [Run]'s start-up.  The collaborators the file only calls through Go
    interfaces (the rate-limiting work queue, the informer's indexer, the
    deployment installer, the key function) are type classes here; the
    controller code is written once over any instance of them. *)

From stdpp Require Import gmap strings list.

Set Warnings "-register-all,-clear-no-such-hyp".

(** ** Go values *)

(** What an [interface{}] inside unstructured content can hold. *)
Inductive value : Type :=
| VNil
| VString (s : string)
| VInt (z : Z)
| VBool (b : bool)
| VSlice (l : list value)
| VMap (m : gmap string value).

(** [m[k]] on a [map[string]interface{}]: the zero value [nil] when absent. *)
Definition index (m : gmap string value) (k : string) : value :=
  default VNil (m !! k).

(** A message built by [fmt]: the format and its arguments, kept apart. *)
Record formatted := Sprintf { format : string; args : list string }.

(** Go [error] values: [fmt.Errorf] and [errors.Wrap].  A Go [error] that may
    be [nil] is an [option error]. *)
Inductive error : Type :=
| Errorf (msg : formatted)
| Wrap (cause : error) (message : formatted).

Definition text (s : string) : formatted := Sprintf s [].

Module metav1.
Record ObjectMeta := { Namespace : string; Name : string }.
End metav1.

Module unstructured.
Record Unstructured := { Object : gmap string value }.
Definition UnstructuredContent (u : Unstructured) : gmap string value := Object u.
End unstructured.

(** Modelled from the spec: the [OperatorVersion] resource, whose declaration
    is not in [alm.go].  The fields are those [sync] reads: the namespace in
    the object's metadata, and the install strategy, a structured payload
    that carries the strategy discriminator. *)
Record OperatorVersionSpec := { InstallStrategy : unstructured.Unstructured }.
Record OperatorVersion := { ObjectMeta : metav1.ObjectMeta; Spec : OperatorVersionSpec }.

(** An [interface{}] as the informer and the handlers pass it around: a
    pointer to an [OperatorVersion], or any other dynamic value ([nil] is
    [AnyValue VNil]). *)
Inductive any : Type :=
| AnyValue (v : value)
| AnyOperatorVersion (p : OperatorVersion).

(** ** The collaborators' interfaces *)

(** What [queue.Get()] does: hand out an item, report shutdown, or block. *)
Inductive got (Q : Type) : Type :=
| Item (key : string) (q : Q)
| Quit (q : Q)
| Blocks.
Arguments Item {Q} key q.
Arguments Quit {Q} q.
Arguments Blocks {Q}.

(** [workqueue.RateLimitingInterface].  The controller only ever adds string
    keys ([enqueue] adds [key string]), so items are strings. *)
Class RateLimitingInterface (Q : Type) := {
  Add : string → Q → Q;
  Get : Q → got Q;
  Done : string → Q → Q;
  Forget : string → Q → Q;
  AddRateLimited : string → Q → Q;
  ShutDown : Q → Q
}.

(** [cache.Indexer], of which the controller uses [GetByKey] only. *)
Class Indexer (I : Type) := {
  GetByKey : I → string → any * bool * option error
}.

(** The operator client, with the two calls made through it: the discovery
    request [ServerVersion()], and the deployment installer's
    [Install(namespace, payload)], which acts on the cluster behind the client
    and reports an [error]. *)
Class ClientInterface (C : Type) := {
  ServerVersion : C → string * option error;
  Install : string → value → C → option error * C
}.

(** [cache.DeletionHandlingMetaNamespaceKeyFunc]. *)
Class KeyFunc := {
  DeletionHandlingMetaNamespaceKeyFunc : any → string * option error
}.

(** ** Observable calls *)

(** An argument of [log.Info]: a string, or an error value. *)
Inductive logarg : Type :=
| LStr (s : string)
| LErr (e : error).

Inductive event : Type :=
| LogInfo (fields : list logarg)
| HandleError (err : error)
| CallAdd (key : string)
| CallGet
| CallDone (key : string)
| CallForget (key : string)
| CallAddRateLimited (key : string)
| CallShutDown
| CallGetByKey (key : string)
| CallInstall (namespace : string) (payload : value)
| GoWorker
| GoInformerRun
| AwaitStop.

(** The calls on the work queue. *)
Definition queue_call (e : event) : bool :=
  match e with
  | CallAdd _ | CallGet | CallDone _ | CallForget _ | CallAddRateLimited _ | CallShutDown => true
  | _ => false
  end.

(** ** The controller *)

Section Controller.
Context {Q I C : Type}.
Context `{!RateLimitingInterface Q, !Indexer I, !ClientInterface C, !KeyFunc}.

(** The [Operator] struct together with what it acts on: the queue, the
    informer's indexer, the cluster behind [opClient], and the calls made so
    far, oldest first. *)
Record Operator := {
  queue : Q;
  informer : I;
  opClient : C;
  trace : list event
}.

Definition M (A : Type) : Type := Operator → A * Operator.

Definition ret {A : Type} (a : A) : M A := λ o, (a, o).
Definition bind {A B : Type} (m : M A) (f : A → M B) : M B :=
  λ o, let '(a, o') := m o in f a o'.

#[local] Notation "'let*' x := m 'in' k" := (bind m (λ x, k))
  (at level 10, x name, m at level 100, k at level 200).
#[local] Notation "'let*' ' p := m 'in' k" := (bind m (λ x, match x with p => k end))
  (at level 10, p pattern, m at level 100, k at level 200).
#[local] Notation "m ;; k" := (bind m (λ _, k))
  (at level 100, k at level 200, right associativity).

Definition emit (e : event) : M unit :=
  λ o, (tt, {| queue := queue o; informer := informer o; opClient := opClient o;
               trace := trace o ++ [e] |}).

Definition on_queue (f : Q → Q) : M unit :=
  λ o, (tt, {| queue := f (queue o); informer := informer o; opClient := opClient o;
               trace := trace o |}).

Definition log_Info (fields : list logarg) : M unit := emit (LogInfo fields).
Definition utilruntime_HandleError (err : error) : M unit := emit (HandleError err).

Definition queue_Add (key : string) : M unit := emit (CallAdd key);; on_queue (Add key).
Definition queue_Done (key : string) : M unit := emit (CallDone key);; on_queue (Done key).
Definition queue_Forget (key : string) : M unit := emit (CallForget key);; on_queue (Forget key).
Definition queue_AddRateLimited (key : string) : M unit :=
  emit (CallAddRateLimited key);; on_queue (AddRateLimited key).
Definition queue_ShutDown : M unit := emit CallShutDown;; on_queue ShutDown.

Definition on_informer {A : Type} (f : I → A) : M A := λ o, (f (informer o), o).

Definition on_opClient {A : Type} (f : C → A * C) : M A :=
  λ o, let '(a, c) := f (opClient o) in
       (a, {| queue := queue o; informer := informer o; opClient := c; trace := trace o |}).

Definition informer_GetByKey (key : string) : M (any * bool * option error) :=
  emit (CallGetByKey key);; on_informer (λ i, GetByKey i key).

Definition kubeDeployment_Install (namespace : string) (payload : value) : M (option error) :=
  emit (CallInstall namespace payload);; on_opClient (Install namespace payload).

Definition discovery_ServerVersion : M (string * option error) :=
  on_opClient (λ c, (ServerVersion c, c)).

Definition keyFunc (obj : any) : M (string * bool) :=
  let '(k, err) := DeletionHandlingMetaNamespaceKeyFunc obj in
  match err with
  | Some e => log_Info [LStr "msg"; LStr "creating key failed"; LStr "err"; LErr e];; ret (k, false)
  | None => ret (k, true)
  end.

Definition enqueue (obj : any) : M unit :=
  match obj with
  | AnyValue VNil => ret tt
  | AnyValue (VString key) => queue_Add key
  | _ =>
      let* '(key, ok) := keyFunc obj in
      (if ok then queue_Add key else ret tt) : M unit
  end.

Definition sync (key : string) : M (option error) :=
  let* '(obj, exists_, err) := informer_GetByKey key in
  match err with
  | Some e => ret (Some e)
  | None =>
      if negb exists_ then ret None
      else
        match obj with
        | AnyOperatorVersion operatorVersion =>
            log_Info [LStr "msg"; LStr "sync OperatorVersionSpec"; LStr "key"; LStr key];;
            let install :=
              unstructured.UnstructuredContent (InstallStrategy (Spec operatorVersion)) in
            match index install "strategy" with
            | VString strategyString =>
                (if String.eqb strategyString "deployment"
                 then
                   kubeDeployment_Install
                     (metav1.Namespace (ObjectMeta operatorVersion))
                     (index install "deployments");;
                   ret tt
                 else ret tt);;
                ret None
            | _ => ret (Some (Errorf (text "casting strategy failed")))
            end
        | AnyValue _ => ret (Some (Errorf (text "casting OperatorVersionSpec failed")))
        end
  end.

Definition handleAddOperatorVersion (obj : any) : M unit :=
  let* '(key, ok) := keyFunc obj in
  (if ok
   then log_Info [LStr "msg"; LStr "OperatorVersionSpec added"; LStr "key"; LStr key];;
        enqueue (AnyValue (VString key))
   else ret tt) : M unit.

(** The operator once [Get] has returned, leaving the queue as [q]. *)
Definition after_Get (q : Q) (o : Operator) : Operator :=
  {| queue := q; informer := informer o; opClient := opClient o;
     trace := trace o ++ [CallGet] |}.

(** The operator with [evs] added to the calls made. *)
Definition logged (evs : list event) (o : Operator) : Operator :=
  {| queue := queue o; informer := informer o; opClient := opClient o;
     trace := trace o ++ evs |}.

(** [None] when [Get] blocks: the worker is suspended and nothing has
    happened yet.  The deferred [Done] runs last on both return paths. *)
Definition processNextWorkItem (o : Operator) : option (bool * Operator) :=
  match Get (queue o) with
  | Blocks => None
  | Quit q => Some (false, after_Get q o)
  | Item key q =>
      Some ((let* err := sync key in
             match err with
             | None => queue_Forget key;; queue_Done key;; ret true
             | Some e =>
                 utilruntime_HandleError (Wrap e (Sprintf "Sync %q failed" [key]));;
                 queue_AddRateLimited key;;
                 queue_Done key;;
                 ret true
             end)
              (after_Get q o))
  end.

Inductive stopped : Type :=
| Exited      (* [processNextWorkItem] returned false *)
| Suspended   (* blocked in [Get] *)
| Looping.    (* still looping when the fuel ran out *)

(** [for c.processNextWorkItem() {}], for at most [fuel] iterations. *)
Fixpoint worker (fuel : nat) (o : Operator) : stopped * Operator :=
  match fuel with
  | 0 => (Looping, o)
  | S fuel' =>
      match processNextWorkItem o with
      | None => (Suspended, o)
      | Some (true, o') => worker fuel' o'
      | Some (false, o') => (Exited, o')
      end
  end.

(** The operator after [n] full iterations of the worker's loop, if [Get]
    hands out an item in each of them. *)
Fixpoint iterations (n : nat) (o : Operator) : option Operator :=
  match n with
  | 0 => Some o
  | S n' =>
      match processNextWorkItem o with
      | Some (true, o') => iterations n' o'
      | _ => None
      end
  end.

(** The goroutine [Run] starts first; its result is what it sends on
    [errChan]. *)
Definition probe : M (option error) :=
  let* '(v, err) := discovery_ServerVersion in
  match err with
  | Some e => ret (Some (Wrap e (text "communicating with server failed")))
  | None =>
      log_Info [LStr "msg"; LStr "connection established"; LStr "cluster-version"; LStr v];;
      ret None
  end.

(** Which case of [Run]'s [select] fires. *)
Inductive selected : Type :=
| FromErrChan
| FromStopc.

(** [Run], given which case of the [select] fires.  The two goroutines it
    starts and the final wait on [stopc] are recorded as calls; the deferred
    [ShutDown] runs last on every return path.  When [stopc] wins the
    [select], what the probe sends is never received.  This is [Run]'s own
    thread of control: what the goroutines do on their own while [Run] waits
    (the worker's calls on the queue, the informer filling the mirror, and the
    probe's log line when [stopc] wins the [select]) is not part of the state
    [Run] returns. *)
Definition Run (first : selected) : M (option error) :=
  let* r :=
    match first with
    | FromStopc => ret None
    | FromErrChan =>
        let* err := probe in
        match err with
        | Some e => ret (Some e)
        | None =>
            log_Info [LStr "msg"; LStr "Operator ready"];;
            emit GoWorker;;
            emit GoInformerRun;;
            emit AwaitStop;;
            ret None
        end
    end in
  queue_ShutDown;;
  ret r.

(** [cache.ResourceEventHandlerFuncs]: a handler per kind of notification,
    each of which may be left unset. *)
Record ResourceEventHandlerFuncs := {
  AddFunc : option (any → M unit);
  UpdateFunc : option (any → any → M unit);
  DeleteFunc : option (any → M unit)
}.

(** The handlers [New] registers with the informer. *)
Definition New_handlers : ResourceEventHandlerFuncs :=
  {| AddFunc := Some handleAddOperatorVersion; UpdateFunc := None; DeleteFunc := None |}.

(** What the informer tells its handlers. *)
Inductive notification : Type :=
| OnAdd (obj : any)
| OnUpdate (oldObj newObj : any)
| OnDelete (obj : any).

(** [OnAdd], [OnUpdate] and [OnDelete] of [ResourceEventHandlerFuncs]: call
    the handler when it is set. *)
Definition notify (h : ResourceEventHandlerFuncs) (n : notification) : M unit :=
  match n with
  | OnAdd obj => match AddFunc h with Some f => f obj | None => ret tt end
  | OnUpdate oldObj newObj =>
      match UpdateFunc h with Some f => f oldObj newObj | None => ret tt end
  | OnDelete obj => match DeleteFunc h with Some f => f obj | None => ret tt end
  end.
End Controller.

Arguments Operator : clear implicits.
Arguments M : clear implicits.

(** ** The work queue *)

Module workqueue.

(** Modelled from the spec: the deduplicating, rate-limited work queue (the
    [workqueue] package [alm.go] imports is not among the sources).  [pending]
    holds the queue entries in delivery order, [inFlight] the keys handed out
    by [Get] and not yet [Done], [buffered] the keys added again while in
    flight, [retries] the attempt counter of each key, and [scheduled] the
    deliveries [AddRateLimited] has scheduled, each with its delay. *)
Record t := {
  pending : list string;
  inFlight : gset string;
  buffered : gset string;
  retries : gmap string nat;
  scheduled : list (string * N);
  shuttingDown : bool
}.

Definition empty : t :=
  {| pending := []; inFlight := ∅; buffered := ∅; retries := ∅; scheduled := [];
     shuttingDown := false |}.

(** Modelled from the spec: an insertion for a pending key is coalesced, one
    for a key in flight is recorded and held back until [Done], and [Add]
    after shutdown does nothing. *)
Definition add (key : string) (q : t) : t :=
  if shuttingDown q then q
  else if decide (key ∈ inFlight q) then
    {| pending := pending q; inFlight := inFlight q; buffered := {[key]} ∪ buffered q;
       retries := retries q; scheduled := scheduled q; shuttingDown := shuttingDown q |}
  else if decide (key ∈ pending q) then q
  else
    {| pending := pending q ++ [key]; inFlight := inFlight q; buffered := buffered q;
       retries := retries q; scheduled := scheduled q; shuttingDown := shuttingDown q |}.

(** Modelled from the spec: [Get] hands out the oldest pending key and marks
    it in flight; on an empty queue it reports shutdown once the queue is
    shut down, and blocks otherwise. *)
Definition get (q : t) : got t :=
  match pending q with
  | key :: rest =>
      Item key
        {| pending := rest; inFlight := {[key]} ∪ inFlight q; buffered := buffered q;
           retries := retries q; scheduled := scheduled q; shuttingDown := shuttingDown q |}
  | [] => if shuttingDown q then Quit q else Blocks
  end.

(** Modelled from the spec: [Done] takes the key out of flight; if an [Add]
    was recorded meanwhile, the key becomes eligible again at once. *)
Definition done (key : string) (q : t) : t :=
  if decide (key ∈ buffered q) then
    {| pending := pending q ++ [key]; inFlight := inFlight q ∖ {[key]};
       buffered := buffered q ∖ {[key]};
       retries := retries q; scheduled := scheduled q; shuttingDown := shuttingDown q |}
  else
    {| pending := pending q; inFlight := inFlight q ∖ {[key]}; buffered := buffered q;
       retries := retries q; scheduled := scheduled q; shuttingDown := shuttingDown q |}.

(** Modelled from the spec: [Forget] resets the key's retry counter. *)
Definition forget (key : string) (q : t) : t :=
  {| pending := pending q; inFlight := inFlight q; buffered := buffered q;
     retries := delete key (retries q); scheduled := scheduled q;
     shuttingDown := shuttingDown q |}.

(** Modelled from the spec: exponential backoff with a cap. *)
Definition backoff (attempts : nat) : N := N.min (5 * 2 ^ N.of_nat attempts) 1000000.

(** Modelled from the spec: [AddRateLimited] advances the key's retry state
    and schedules a delivery after the delay computed from it. *)
Definition addRateLimited (key : string) (q : t) : t :=
  let attempts := default 0 (retries q !! key) in
  {| pending := pending q; inFlight := inFlight q; buffered := buffered q;
     retries := <[key := S attempts]> (retries q);
     scheduled := scheduled q ++ [(key, backoff attempts)];
     shuttingDown := shuttingDown q |}.

Definition shutDown (q : t) : t :=
  {| pending := pending q; inFlight := inFlight q; buffered := buffered q;
     retries := retries q; scheduled := scheduled q; shuttingDown := true |}.

Fixpoint unschedule (key : string) (l : list (string * N)) : option (list (string * N)) :=
  match l with
  | [] => None
  | (k, d) :: l' =>
      if decide (k = key) then Some l' else cons (k, d) <$> unschedule key l'
  end.

(** Modelled from the spec: when its delay has passed, a scheduled delivery
    turns into an [Add] of its key. *)
Definition deliver (key : string) (q : t) : option t :=
  match unschedule key (scheduled q) with
  | Some l =>
      Some (add key
              {| pending := pending q; inFlight := inFlight q; buffered := buffered q;
                 retries := retries q; scheduled := l; shuttingDown := shuttingDown q |})
  | None => None
  end.

#[global] Instance rateLimiting : RateLimitingInterface t :=
  {| Add := add; Get := get; Done := done; Forget := forget;
     AddRateLimited := addRateLimited; ShutDown := shutDown |}.

End workqueue.

(** ** Workers sharing one queue *)

(** Where a worker stands in [processNextWorkItem]: before [Get], between
    [Get] and the [Forget] or [AddRateLimited] that follows [sync], between
    that and the deferred [Done], or out of its loop. *)
Inductive phase : Type :=
| Idle
| Syncing (key : string)
| Finishing (key : string)
| Gone.

Definition holding (p : phase) : option string :=
  match p with
  | Syncing key | Finishing key => Some key
  | Idle | Gone => None
  end.

(** One queue, and the workers draining it. *)
Record system := {
  wq : workqueue.t;
  workers : list phase
}.

(** The atomic steps: a worker's calls on the queue in the order
    [processNextWorkItem] makes them, the event dispatcher's [Add], a
    scheduled delivery coming due, and [ShutDown]. *)
Inductive action : Type :=
| WorkerGet (i : nat)
| WorkerForget (i : nat)
| WorkerAddRateLimited (i : nat)
| WorkerDone (i : nat)
| DispatcherAdd (key : string)
| TimerDeliver (key : string)
| QueueShutDown.

Definition fire (a : action) (s : system) : option system :=
  match a with
  | WorkerGet i =>
      match workers s !! i with
      | Some Idle =>
          match Get (wq s) with
          | Item key q => Some {| wq := q; workers := <[i := Syncing key]> (workers s) |}
          | Quit q => Some {| wq := q; workers := <[i := Gone]> (workers s) |}
          | Blocks => None
          end
      | _ => None
      end
  | WorkerForget i =>
      match workers s !! i with
      | Some (Syncing key) =>
          Some {| wq := Forget key (wq s); workers := <[i := Finishing key]> (workers s) |}
      | _ => None
      end
  | WorkerAddRateLimited i =>
      match workers s !! i with
      | Some (Syncing key) =>
          Some {| wq := AddRateLimited key (wq s);
                  workers := <[i := Finishing key]> (workers s) |}
      | _ => None
      end
  | WorkerDone i =>
      match workers s !! i with
      | Some (Finishing key) =>
          Some {| wq := Done key (wq s); workers := <[i := Idle]> (workers s) |}
      | _ => None
      end
  | DispatcherAdd key => Some {| wq := Add key (wq s); workers := workers s |}
  | TimerDeliver key =>
      q ← workqueue.deliver key (wq s); Some {| wq := q; workers := workers s |}
  | QueueShutDown => Some {| wq := ShutDown (wq s); workers := workers s |}
  end.

Fixpoint run (acts : list action) (s : system) : option system :=
  match acts with
  | [] => Some s
  | a :: acts' => s' ← fire a s; run acts' s'
  end.

(** [n] idle workers on an empty queue. *)
Definition start (n : nat) : system :=
  {| wq := workqueue.empty; workers := replicate n Idle |}.

(** Worker [i] is between its [Get] of [key] and its [Done]. *)
Definition processing (s : system) (i : nat) (key : string) : Prop :=
  ∃ p, workers s !! i = Some p ∧ holding p = Some key.

(** What the queue and the workers agree on: no key is pending twice, no
    pending key is in flight, every key a worker holds is in flight, and no
    key is held by two workers. *)
Definition coherent (s : system) : Prop :=
  NoDup (workqueue.pending (wq s)) ∧
  (∀ key, key ∈ workqueue.pending (wq s) → key ∉ workqueue.inFlight (wq s)) ∧
  (∀ i key, processing s i key → key ∈ workqueue.inFlight (wq s)) ∧
  (∀ i j key, processing s i key → processing s j key → i = j).

(** ** Collaborators to run the controller with *)

(** Modelled from the spec: the cache mirror as the set of cached objects by
    key; a lookup reports the object and whether it exists, and never fails. *)
#[global] Instance mirror : Indexer (gmap string any) :=
  {| GetByKey := λ store key,
       match store !! key with
       | Some obj => (obj, true, None)
       | None => (AnyValue VNil, false, None)
       end |}.

(** Modelled from the spec: the resource key is [namespace/name], or the bare
    [name] for a cluster-scoped object; what is not a resource has no key. *)
Definition metaNamespaceKey (obj : any) : string * option error :=
  match obj with
  | AnyOperatorVersion p =>
      let meta := ObjectMeta p in
      if decide (metav1.Namespace meta = "") then (metav1.Name meta, None)
      else (String.append (metav1.Namespace meta) (String.append "/" (metav1.Name meta)), None)
  | AnyValue _ => ("", Some (Errorf (text "object has no meta")))
  end.

#[global] Instance metaKeys : KeyFunc :=
  {| DeletionHandlingMetaNamespaceKeyFunc := metaNamespaceKey |}.

(** A cluster that records what is installed in it, refuses a payload that
    is not a list, and answers the discovery request unless it is [down]. *)
Record cluster := {
  down : bool;
  installed : list (string * value)
}.

#[global] Instance fakeClient : ClientInterface cluster :=
  {| ServerVersion := λ c,
       if down c then ("", Some (Errorf (text "connection refused"))) else ("v1.7.0", None);
     Install := λ namespace payload c,
       match payload with
       | VSlice _ =>
           (None, {| down := down c; installed := installed c ++ [(namespace, payload)] |})
       | _ => (Some (Errorf (text "deployments is not a list")), c)
       end |}.

(** ** Sample resources *)

Definition version (namespace name : string) (strategy : gmap string value) : OperatorVersion :=
  {| ObjectMeta := {| metav1.Namespace := namespace; metav1.Name := name |};
     Spec := {| InstallStrategy := {| unstructured.Object := strategy |} |} |}.

Definition helm : OperatorVersion := version "ns1" "helm" (<["strategy" := VString "helm"]> ∅).
Definition odd : OperatorVersion := version "ns1" "odd" (<["strategy" := VInt 7]> ∅).
Definition bad : OperatorVersion :=
  version "ns1" "bad" (<["strategy" := VString "deployment"]> ∅).
Definition foo : OperatorVersion :=
  version "ns1" "foo"
    (<["strategy" := VString "deployment"]> (<["deployments" := VSlice [VString "etcd"]]> ∅)).

(** A mirror holding: [ns1/foo], a deployment with a list of deployments;
    [ns1/bad], a deployment without one, which the sample cluster refuses;
    [ns1/helm], another strategy; [ns1/odd], a strategy that is not a string;
    [ns1/junk], something that is not an [OperatorVersion]. *)
Definition cached : gmap string any :=
  <["ns1/foo" := AnyOperatorVersion foo]>
  (<["ns1/bad" := AnyOperatorVersion bad]>
  (<["ns1/helm" := AnyOperatorVersion helm]>
  (<["ns1/odd" := AnyOperatorVersion odd]>
  (<["ns1/junk" := AnyValue (VInt 3)]> ∅)))).

(** An operator on that mirror, a reachable cluster and a queue to which
    [keys] were added in turn. *)
Definition operator (keys : list string) : Operator workqueue.t (gmap string any) cluster :=
  {| queue := foldl (λ q key, Add key q) workqueue.empty keys;
     informer := cached;
     opClient := {| down := false; installed := [] |};
     trace := [] |}.

(** The queue once [key], its only entry, has been handed out. *)
Definition handed_out (key : string) : workqueue.t :=
  {| workqueue.pending := []; workqueue.inFlight := {[key]}; workqueue.buffered := ∅;
     workqueue.retries := ∅; workqueue.scheduled := []; workqueue.shuttingDown := false |}.

(** An operator whose queue was shut down with [ns1/junk] still pending. *)
Definition closing : Operator workqueue.t (gmap string any) cluster :=
  {| queue := ShutDown (Add "ns1/junk" workqueue.empty); informer := cached;
     opClient := {| down := false; installed := [] |}; trace := [] |}.

(** The same operator facing a cluster that cannot be reached. *)
Definition stranded : Operator workqueue.t (gmap string any) cluster :=
  {| queue := workqueue.empty; informer := cached;
     opClient := {| down := true; installed := [] |}; trace := [] |}.

(** Two workers, one busy with [ns1/foo] and one with [ns1/bar], while
    [ns1/foo] has been added again. *)
Definition busy : list action :=
  [DispatcherAdd "ns1/foo"; DispatcherAdd "ns1/bar"; WorkerGet 0;
   DispatcherAdd "ns1/foo"; WorkerGet 1].

Definition two_busy : system :=
  {| wq :=
       {| workqueue.pending := [];
          workqueue.inFlight := {["ns1/foo"; "ns1/bar"]};
          workqueue.buffered := {["ns1/foo"]};
          workqueue.retries := ∅;
          workqueue.scheduled := [];
          workqueue.shuttingDown := false |};
     workers := [Syncing "ns1/foo"; Syncing "ns1/bar"] |}.

(** ** Objects shared with the mirror *)

(** In Go the mirror hands out the object it holds, not a copy: [GetByKey]
    returns a pointer into the store, [UnstructuredContent] returns the
    object's own map, and [install["deployments"]], when it is a slice or a
    map, refers to storage that belongs to the cached object.  A callee that
    is handed such a value can change it in place, and the change is then a
    change of the mirror.  The definitions below follow [sync] once more with
    this sharing made explicit: a call that receives a value by reference
    returns the state it leaves that value in, and the mirror takes it over. *)

(** Whether a dynamic value refers to storage that can be changed through
    it. *)
Definition is_reference (v : value) : bool :=
  match v with
  | VSlice _ | VMap _ => true
  | _ => false
  end.

(** The resource with the "deployments" entry of its strategy become
    [payload]. *)
Definition with_deployments (p : OperatorVersion) (payload : value) : OperatorVersion :=
  {| ObjectMeta := ObjectMeta p;
     Spec :=
       {| InstallStrategy :=
            {| unstructured.Object :=
                 <["deployments" := payload]>
                   (unstructured.Object (InstallStrategy (Spec p))) |} |} |}.

(** An indexer whose objects its readers can reach: [written_through key obj]
    is the store once the object it holds under [key] has become [obj].
    Writing what is there changes nothing. *)
Class SharedIndexer (I : Type) `{!Indexer I} := {
  written_through : string → any → I → I;
  written_through_same (i : I) (key : string) (obj : any) :
    GetByKey i key = (obj, true, None) → written_through key obj i = i
}.

(** The installer, handed its payload by reference: besides the error and
    the cluster, a call leaves the payload in some state. *)
Class InstallerByReference (C : Type) := {
  InstallByReference : string → value → C → option error * value * C
}.

(** An installer that leaves the payload it is handed as it was. *)
#[global] Instance leaves_payload {C : Type} `{!ClientInterface C} : InstallerByReference C :=
  {| InstallByReference := λ namespace payload c,
       let '(err, c') := Install namespace payload c in (err, payload, c') |}.

#[global] Instance shared_mirror : SharedIndexer (gmap string any).
Proof.
  refine {| written_through := λ key obj store, <[key := obj]> store |}.
  intros store key obj. simpl.
  destruct (store !! key) as [obj'|] eqn:Hobj; [|done].
  intros [= <-]. by apply insert_id.
Defined.

Module shared.
Section Sync.
Context {Q I C : Type}.
Context `{!RateLimitingInterface Q, !Indexer I, !SharedIndexer I, !InstallerByReference C}.

#[local] Notation "'let*' ' p := m 'in' k" := (bind m (λ x, match x with p => k end))
  (at level 10, p pattern, m at level 100, k at level 200).
#[local] Notation "m ;; k" := (bind m (λ _, k))
  (at level 100, k at level 200, right associativity).

(** [kubeDeployment.Install(namespace, payload)], where [payload] is the
    "deployments" entry of [operatorVersion], the object the mirror holds
    under [key]: what the call leaves of a payload passed by reference is what
    the mirror then holds. *)
Definition kubeDeployment_Install (key : string) (operatorVersion : OperatorVersion)
    (namespace : string) (payload : value) : M Q I C (option error) :=
  emit (CallInstall namespace payload);;
  λ o, let '(err, after, c) := InstallByReference namespace payload (opClient o) in
       (err,
        {| queue := queue o;
           informer :=
             if is_reference payload
             then written_through key
                    (AnyOperatorVersion (with_deployments operatorVersion after)) (informer o)
             else informer o;
           opClient := c;
           trace := trace o |}).

Definition sync (key : string) : M Q I C (option error) :=
  let* '(obj, exists_, err) := informer_GetByKey key in
  match err with
  | Some e => ret (Some e)
  | None =>
      if negb exists_ then ret None
      else
        match obj with
        | AnyOperatorVersion operatorVersion =>
            log_Info [LStr "msg"; LStr "sync OperatorVersionSpec"; LStr "key"; LStr key];;
            let install :=
              unstructured.UnstructuredContent (InstallStrategy (Spec operatorVersion)) in
            match index install "strategy" with
            | VString strategyString =>
                (if String.eqb strategyString "deployment"
                 then
                   kubeDeployment_Install key operatorVersion
                     (metav1.Namespace (ObjectMeta operatorVersion))
                     (index install "deployments");;
                   ret tt
                 else ret tt);;
                ret None
            | _ => ret (Some (Errorf (text "casting strategy failed")))
            end
        | AnyValue _ => ret (Some (Errorf (text "casting OperatorVersionSpec failed")))
        end
  end.
End Sync.
End shared.

(** ** What the mirror announces *)

(** The object has a resource key. *)
Definition keyed `{!KeyFunc} (obj : any) : Prop :=
  (DeletionHandlingMetaNamespaceKeyFunc obj).2 = None.

Definition resourceKey `{!KeyFunc} (obj : any) : string :=
  (DeletionHandlingMetaNamespaceKeyFunc obj).1.

(** Modelled from the spec: the cache mirror (the informer [New] builds,
    whose code is not in [alm.go]) addresses every object it holds by its
    resource key, so the objects of a notification it sends have one. *)
Definition announced `{!KeyFunc} (n : notification) : Prop :=
  match n with
  | OnAdd obj => keyed obj
  | OnUpdate oldObj newObj => keyed oldObj ∧ keyed newObj
  | OnDelete obj => keyed obj
  end.

(** ** Reading the calls made *)

(** The installer calls among [evs], oldest first. *)
Fixpoint install_calls (evs : list event) : list (string * value) :=
  match evs with
  | [] => []
  | CallInstall namespace payload :: evs' => (namespace, payload) :: install_calls evs'
  | _ :: evs' => install_calls evs'
  end.



(** A mirror that is out of order: every lookup fails with [reason]. *)
Record outage := { reason : error }.

#[global] Instance unavailable : Indexer outage :=
  {| GetByKey := λ i key, (AnyValue VNil, false, Some (reason i)) |}.

(** An operator with [ns1/foo] pending whose mirror is out of order. *)
Definition cut_off : Operator workqueue.t outage cluster :=
  {| queue := Add "ns1/foo" workqueue.empty;
     informer := {| reason := Errorf (text "index unavailable") |};
     opClient := {| down := false; installed := [] |};
     trace := [] |}.

(** * Properties *)

(** Closes [e ∉ [e1; ...; en]] when [e] differs from each [ei] by its
    constructor. *)
Ltac not_among :=
  let Hin := fresh in
  intros Hin;
  repeat (apply elem_of_cons in Hin as [Hin|Hin]; [discriminate Hin|]);
  by apply elem_of_nil in Hin.

Section ControllerFacts.
Context {Q I C : Type}.
Context `{!RateLimitingInterface Q, !Indexer I, !ClientInterface C, !KeyFunc}.
Implicit Types (o : Operator Q I C) (key : string).

Ltac step_m :=
  unfold informer_GetByKey, kubeDeployment_Install, discovery_ServerVersion,
    queue_Add, queue_Done, queue_Forget, queue_AddRateLimited, queue_ShutDown,
    utilruntime_HandleError, log_Info, on_informer, on_opClient, on_queue, emit,
    bind, ret, logged, after_Get in *;
  simpl in *.

(** What [sync] does, path by path: the value it returns, the calls it
    makes, and the cluster it leaves behind. *)
Lemma sync_unfold key o :
  sync key o =
  match GetByKey (informer o) key with
  | (_, _, Some e) => (Some e, logged [CallGetByKey key] o)
  | (_, false, None) => (None, logged [CallGetByKey key] o)
  | (AnyValue _, true, None) =>
      (Some (Errorf (text "casting OperatorVersionSpec failed")), logged [CallGetByKey key] o)
  | (AnyOperatorVersion p, true, None) =>
      let install := unstructured.UnstructuredContent (InstallStrategy (Spec p)) in
      let said := LogInfo [LStr "msg"; LStr "sync OperatorVersionSpec"; LStr "key"; LStr key] in
      match index install "strategy" with
      | VString strategyString =>
          if String.eqb strategyString "deployment" then
            let namespace := metav1.Namespace (ObjectMeta p) in
            let payload := index install "deployments" in
            (None,
             {| queue := queue o; informer := informer o;
                opClient := (Install namespace payload (opClient o)).2;
                trace := trace o ++ [CallGetByKey key; said; CallInstall namespace payload] |})
          else (None, logged [CallGetByKey key; said] o)
      | _ => (Some (Errorf (text "casting strategy failed")), logged [CallGetByKey key; said] o)
      end
  end.
Proof.
  unfold sync. step_m.
  destruct (GetByKey (informer o) key) as [[[v|p] [|]] [e|]]; simpl; try done.
  rewrite <- !app_assoc; simpl.
  destruct (index _ "strategy") as [| s | | | |]; simpl; try done.
  destruct (String.eqb s "deployment"); simpl; [|done].
  destruct (Install _ _ _) as [err c]; simpl.
  by rewrite <- !app_assoc.
Qed.

(** [sync] leaves the queue and the informer alone, and only adds to the
    calls made; none of the calls it adds is a call on the queue. *)
Lemma sync_frame key o :
  queue (sync key o).2 = queue o ∧ informer (sync key o).2 = informer o ∧
  ∃ evs, trace (sync key o).2 = trace o ++ evs ∧ Forall (λ e, queue_call e = false) evs.
Proof.
  rewrite sync_unfold.
  destruct (GetByKey (informer o) key) as [[[v|p] [|]] [e|]]; simpl;
    try (repeat split; eexists; split; [done|]; by repeat constructor).
  destruct (index _ "strategy") as [| s | | | |]; simpl;
    try (repeat split; eexists; split; [done|]; by repeat constructor).
  destruct (String.eqb s "deployment"); simpl;
    repeat split; eexists; split; try done; by repeat constructor.
Qed.

(** C3. When the cache mirror reports that the key's object does not exist
    (and the lookup raised no error), [sync] returns no error, and the lookup
    is the only call it makes: the installer is not invoked and the cluster
    is as it was. *)
Theorem sync_missing_object key o obj :
  GetByKey (informer o) key = (obj, false, None) →
  sync key o = (None, logged [CallGetByKey key] o).
Proof. intros Hget. rewrite sync_unfold, Hget. by destruct obj. Qed.

(** C4, as amended. For a cached [OperatorVersion] whose strategy
    discriminator is not the string "deployment", [sync] makes no
    installation call and leaves the cluster as it was; it returns no error
    when the discriminator is a string, and the error "casting strategy
    failed" when it is absent or not a string. *)
Theorem sync_other_strategy key o p :
  GetByKey (informer o) key = (AnyOperatorVersion p, true, None) →
  let strategy := index (unstructured.UnstructuredContent (InstallStrategy (Spec p))) "strategy" in
  strategy ≠ VString "deployment" →
  sync key o =
    (match strategy with
     | VString _ => None
     | _ => Some (Errorf (text "casting strategy failed"))
     end,
     logged [CallGetByKey key;
             LogInfo [LStr "msg"; LStr "sync OperatorVersionSpec"; LStr "key"; LStr key]] o).
Proof.
  intros Hget strategy Hne. rewrite sync_unfold, Hget. simpl.
  fold strategy. destruct strategy as [| s | | | |]; try done.
  destruct (String.eqb_spec s "deployment") as [->|]; done.
Qed.

(** One pass of the worker over a dequeued key, in terms of what [sync]
    returned. *)
Lemma processNextWorkItem_item key q o :
  Get (queue o) = Item key q →
  processNextWorkItem o =
  Some (true,
        let o1 := (sync key (after_Get q o)).2 in
        match (sync key (after_Get q o)).1 with
        | None =>
            {| queue := Done key (Forget key (queue o1)); informer := informer o1;
               opClient := opClient o1;
               trace := trace o1 ++ [CallForget key; CallDone key] |}
        | Some e =>
            {| queue := Done key (AddRateLimited key (queue o1)); informer := informer o1;
               opClient := opClient o1;
               trace := trace o1 ++ [HandleError (Wrap e (Sprintf "Sync %q failed" [key]));
                                     CallAddRateLimited key; CallDone key] |}
        end).
Proof.
  intros Hget. unfold processNextWorkItem. rewrite Hget.
  unfold bind at 1. destruct (sync key (after_Get q o)) as [[e|] o1]; step_m;
    by rewrite <- !app_assoc.
Qed.

Lemma worker_exits_iff fuel o o' :
  worker fuel o = (Exited, o') ↔
  ∃ n o_n q, n < fuel ∧ iterations n o = Some o_n ∧
             Get (queue o_n) = Quit q ∧ o' = after_Get q o_n.
Proof.
  revert o. induction fuel as [|fuel IH]; intros o; simpl.
  { split; [done|]. intros (n & ? & ? & ? & _). lia. }
  split.
  - destruct (processNextWorkItem o) as [[[|] o1]|] eqn:Hp; [| |intros [=]].
    + intros (n & o_n & q & ? & ? & ? & ?)%IH. exists (S n), o_n, q.
      simpl. rewrite Hp. repeat split; [lia|done..].
    + intros [= <-].
      destruct (Get (queue o)) as [key q|q|] eqn:Hget.
      * by rewrite (processNextWorkItem_item key q) in Hp.
      * unfold processNextWorkItem in Hp. rewrite Hget in Hp.
        exists 0, o, q. simpl. repeat split; [lia|done|congruence].
      * unfold processNextWorkItem in Hp. by rewrite Hget in Hp.
  - intros ([|n] & o_n & q & Hlt & Hit & Hget & ->); simpl in Hit.
    + injection Hit as <-. unfold processNextWorkItem. by rewrite Hget.
    + destruct (processNextWorkItem o) as [[[|] o1]|]; [|done..].
      apply IH. exists n, o_n, q. repeat split; [lia|done..].
Qed.

(** C1. For a key handed out by [Get]: when [sync] returns no error the
    worker calls [Forget] and then [Done] for it; when [sync] returns an error
    it reports the error to the error handler, calls [AddRateLimited] and then
    [Done]; either way [processNextWorkItem] returns true and the loop goes on
    to its next iteration.  The loop ends exactly when some [Get] reports
    shutdown. *)
Theorem processNextWorkItem_protocol o :
  (∀ key q, Get (queue o) = Item key q →
     let o1 := (sync key (after_Get q o)).2 in
     ∃ o2, processNextWorkItem o = Some (true, o2) ∧
           (∀ fuel, worker (S fuel) o = worker fuel o2) ∧
           match (sync key (after_Get q o)).1 with
           | None =>
               trace o2 = trace o1 ++ [CallForget key; CallDone key] ∧
               queue o2 = Done key (Forget key (queue o1))
           | Some e =>
               trace o2 = trace o1 ++ [HandleError (Wrap e (Sprintf "Sync %q failed" [key]));
                                       CallAddRateLimited key; CallDone key] ∧
               queue o2 = Done key (AddRateLimited key (queue o1))
           end) ∧
  (∀ fuel o', worker fuel o = (Exited, o') ↔
     ∃ n o_n q, n < fuel ∧ iterations n o = Some o_n ∧
                Get (queue o_n) = Quit q ∧ o' = after_Get q o_n).
Proof.
  split; [|intros; apply worker_exits_iff].
  intros key q Hget o1. eexists. split; [by apply processNextWorkItem_item|].
  split.
  - intros fuel. simpl. by rewrite (processNextWorkItem_item key q).
  - subst o1. by destruct (sync key (after_Get q o)) as [[e|] o1].
Qed.

(** C5. When the cached object is not an [OperatorVersion], [sync] returns
    the error "casting OperatorVersionSpec failed"; the worker hands that
    error to the error handler, calls [AddRateLimited] and [Done] for the key
    and goes on with its loop. *)
Theorem cast_error_requeued key q o v :
  Get (queue o) = Item key q →
  GetByKey (informer o) key = (AnyValue v, true, None) →
  let failed := Errorf (text "casting OperatorVersionSpec failed") in
  let o' :=
    {| queue := Done key (AddRateLimited key q); informer := informer o;
       opClient := opClient o;
       trace := trace o ++ [CallGet; CallGetByKey key;
                            HandleError (Wrap failed (Sprintf "Sync %q failed" [key]));
                            CallAddRateLimited key; CallDone key] |} in
  (sync key (after_Get q o)).1 = Some failed ∧
  processNextWorkItem o = Some (true, o') ∧
  ∀ fuel, worker (S fuel) o = worker fuel o'.
Proof.
  intros Hget Hobj failed o'.
  assert (Hsync : sync key (after_Get q o) =
                  (Some failed, logged [CallGetByKey key] (after_Get q o))).
  { rewrite sync_unfold. simpl. by rewrite Hobj. }
  assert (Hp : processNextWorkItem o = Some (true, o')).
  { rewrite (processNextWorkItem_item key q), Hsync by done. simpl.
    subst o'. by rewrite <- !app_assoc. }
  split; [by rewrite Hsync|]. split; [done|].
  intros fuel. simpl. by rewrite Hp.
Qed.

(** C10. For a key handed out by [Get], [processNextWorkItem] calls [Done]
    for that key as its last call on the queue, and makes no other [Done] and
    no further [Get] before it returns, whatever [sync] returned. *)
Theorem done_exactly_once key q o :
  Get (queue o) = Item key q →
  ∃ o' evs q',
    processNextWorkItem o = Some (true, o') ∧
    trace o' = trace o ++ CallGet :: evs ++ [CallDone key] ∧
    queue o' = Done key q' ∧
    (∀ k, CallDone k ∉ evs) ∧ CallGet ∉ evs.
Proof.
  intros Hget. rewrite (processNextWorkItem_item key q) by done.
  destruct (sync_frame key (after_Get q o)) as (Hq & _ & evs & Htr & Hevs).
  rewrite Forall_forall in Hevs.
  assert (Hno : ∀ e, queue_call e = true → e ∉ evs).
  { intros e He Hin. apply Hevs in Hin. congruence. }
  destruct (sync key (after_Get q o)) as [[e|] o1]; simpl in *.
  - exists {| queue := Done key (AddRateLimited key (queue o1)); informer := informer o1;
              opClient := opClient o1;
              trace := trace o1 ++ [HandleError (Wrap e (Sprintf "Sync %q failed" [key]));
                                    CallAddRateLimited key; CallDone key] |},
      (evs ++ [HandleError (Wrap e (Sprintf "Sync %q failed" [key])); CallAddRateLimited key]),
      (AddRateLimited key (queue o1)).
    simpl. rewrite Htr. repeat split.
    + by rewrite <- !app_assoc.
    + intros k. rewrite elem_of_app, !elem_of_cons, elem_of_nil.
      intros [Hin|[?|[?|[]]]]; [by apply (Hno (CallDone k))|done..].
    + rewrite elem_of_app, !elem_of_cons, elem_of_nil.
      intros [Hin|[?|[?|[]]]]; [by apply (Hno CallGet)|done..].
  - exists {| queue := Done key (Forget key (queue o1)); informer := informer o1;
              opClient := opClient o1;
              trace := trace o1 ++ [CallForget key; CallDone key] |},
      (evs ++ [CallForget key]), (Forget key (queue o1)).
    simpl. rewrite Htr. repeat split.
    + by rewrite <- !app_assoc.
    + intros k. rewrite elem_of_app, !elem_of_cons, elem_of_nil.
      intros [Hin|[?|[]]]; [by apply (Hno (CallDone k))|done].
    + rewrite elem_of_app, !elem_of_cons, elem_of_nil.
      intros [Hin|[?|[]]]; [by apply (Hno CallGet)|done].
Qed.

(** With the "deployment" strategy, [sync] calls the installer and drops
    what it returns: [sync] returns no error whether or not [Install] did. *)
Lemma sync_deployment key o p :
  GetByKey (informer o) key = (AnyOperatorVersion p, true, None) →
  let install := unstructured.UnstructuredContent (InstallStrategy (Spec p)) in
  index install "strategy" = VString "deployment" →
  (sync key o).1 = None ∧
  ∃ evs, trace (sync key o).2 =
         trace o ++ evs ++ [CallInstall (metav1.Namespace (ObjectMeta p))
                                        (index install "deployments")].
Proof.
  intros Hget install Hs. rewrite sync_unfold, Hget. simpl.
  fold install. rewrite Hs. simpl. split; [done|].
  by exists [CallGetByKey key;
             LogInfo [LStr "msg"; LStr "sync OperatorVersionSpec"; LStr "key"; LStr key]].
Qed.

(** C6. When the probe's result is what the [select] receives and the probe
    failed, [Run] returns the probe's error (wrapped with "communicating with
    server failed"); when the stop signal is what the [select] receives, [Run]
    returns no error.  Either way the only call [Run] makes is the deferred
    [ShutDown]: neither the worker nor the informer is started. *)
Theorem Run_startup_race o :
  let stopped :=
    {| queue := ShutDown (queue o); informer := informer o; opClient := opClient o;
       trace := trace o ++ [CallShutDown] |} in
  (∀ v e, ServerVersion (opClient o) = (v, Some e) →
          Run FromErrChan o =
            (Some (Wrap e (text "communicating with server failed")), stopped)) ∧
  Run FromStopc o = (None, stopped).
Proof.
  intros stopped. split; [|done].
  intros v e Hsv. unfold Run, probe. step_m. rewrite Hsv. simpl.
  subst stopped. by destruct o.
Qed.

(** What the add handler does when it is called with an object that has no
    key: it logs the failure and leaves the queue alone. *)
Lemma handleAddOperatorVersion_without_key o obj k e :
  DeletionHandlingMetaNamespaceKeyFunc obj = (k, Some e) →
  handleAddOperatorVersion obj o =
    (tt, logged [LogInfo [LStr "msg"; LStr "creating key failed"; LStr "err"; LErr e]] o).
Proof. intros Hk. unfold handleAddOperatorVersion, keyFunc. rewrite Hk. by step_m. Qed.

(** C7. Of the notifications the mirror sends, only the add notifications
    enqueue: for an add notification the registered handlers derive the
    object's resource key and call [Add] with that key, once; for an update or
    a delete notification they do nothing at all, no handler being registered
    for them. *)
Theorem dispatch_add_only n o :
  announced n →
  UpdateFunc (New_handlers (Q := Q) (I := I) (C := C)) = None ∧
  DeleteFunc (New_handlers (Q := Q) (I := I) (C := C)) = None ∧
  notify New_handlers n o =
    match n with
    | OnAdd obj =>
        let key := resourceKey obj in
        (tt, {| queue := Add key (queue o); informer := informer o; opClient := opClient o;
                trace := trace o ++
                  [LogInfo [LStr "msg"; LStr "OperatorVersionSpec added"; LStr "key"; LStr key];
                   CallAdd key] |})
    | OnUpdate _ _ | OnDelete _ => (tt, o)
    end.
Proof.
  intros Hn. split; [done|]. split; [done|].
  destruct n as [obj|oldObj newObj|obj]; simpl; [|done..].
  unfold announced, keyed, resourceKey in *.
  unfold handleAddOperatorVersion, keyFunc, enqueue.
  destruct (DeletionHandlingMetaNamespaceKeyFunc obj) as [key err]. simpl in Hn.
  subst err. step_m. by rewrite <- !app_assoc.
Qed.

End ControllerFacts.

(** * The queue shared by several workers *)

Section Workers.
Implicit Types (s : system) (q : workqueue.t) (i j : nat) (key : string).

Lemma processing_insert s q i j p p0 key :
  workers s !! i = Some p0 →
  processing {| wq := q; workers := <[i := p]> (workers s) |} j key ↔
  (j = i ∧ holding p = Some key) ∨ (j ≠ i ∧ processing s j key).
Proof.
  intros Hi. unfold processing. simpl.
  assert (i < length (workers s)) by by eapply lookup_lt_Some.
  destruct (decide (j = i)) as [->|Hne].
  - rewrite list_lookup_insert_eq by done. naive_solver.
  - rewrite list_lookup_insert_ne by done. naive_solver.
Qed.

Lemma coherent_start n : coherent (start n).
Proof.
  unfold coherent, start. simpl. repeat split.
  - constructor.
  - intros key Hin. by apply elem_of_nil in Hin.
  - intros i key (p & Hp & Hk). apply lookup_replicate in Hp as [-> _]. done.
  - intros i j key (p & Hp & Hk). apply lookup_replicate in Hp as [-> _]. done.
Qed.

Lemma coherent_add s key :
  coherent s → coherent {| wq := workqueue.add key (wq s); workers := workers s |}.
Proof.
  intros (Hnd & Hpf & Hwf & Huniq). unfold workqueue.add.
  destruct (workqueue.shuttingDown (wq s)); [by destruct s|].
  destruct (decide (key ∈ workqueue.inFlight (wq s))); [done|].
  destruct (decide (key ∈ workqueue.pending (wq s))); [by destruct s|].
  unfold coherent. simpl. repeat split; [|  |done..].
  - apply NoDup_app. repeat split; [done| |apply NoDup_singleton].
    intros k Hk ->%list_elem_of_singleton. done.
  - intros k [Hk| ->%list_elem_of_singleton]%elem_of_app; auto.
Qed.

(** Only the pending keys and the keys in flight matter to [coherent]. *)
Lemma coherent_same_keys s q :
  workqueue.pending q = workqueue.pending (wq s) →
  workqueue.inFlight q = workqueue.inFlight (wq s) →
  coherent s → coherent {| wq := q; workers := workers s |}.
Proof. unfold coherent. simpl. by intros -> ->. Qed.

Lemma coherent_rephase s q i key :
  workers s !! i = Some (Syncing key) →
  workqueue.pending q = workqueue.pending (wq s) →
  workqueue.inFlight q = workqueue.inFlight (wq s) →
  coherent s → coherent {| wq := q; workers := <[i := Finishing key]> (workers s) |}.
Proof.
  intros Hi Hp Hf (Hnd & Hpf & Hwf & Huniq).
  assert (Hsame : ∀ j k, processing {| wq := q; workers := <[i := Finishing key]> (workers s) |} j k
                         → processing s j k).
  { intros j k [[-> Hk]|[_ ?]]%(processing_insert _ _ _ _ _ _ _ Hi); [|done].
    injection Hk as <-. by exists (Syncing key). }
  unfold coherent. simpl. rewrite Hp, Hf. repeat split; eauto.
Qed.

Lemma coherent_get s i key q :
  workers s !! i = Some Idle →
  workqueue.get (wq s) = Item key q →
  coherent s → coherent {| wq := q; workers := <[i := Syncing key]> (workers s) |}.
Proof.
  intros Hi Hget (Hnd & Hpf & Hwf & Huniq). unfold workqueue.get in Hget.
  destruct (workqueue.pending (wq s)) as [|k rest] eqn:Hpend;
    [by destruct (workqueue.shuttingDown (wq s))|].
  injection Hget as -> <-.
  apply NoDup_cons in Hnd as [Hfresh Hnd].
  assert (Hfree : ∀ j, ¬ processing s j key).
  { intros j Hj. apply (Hpf key); [left|eauto]. }
  unfold coherent. simpl. repeat split.
  - done.
  - intros k Hk. rewrite elem_of_union, elem_of_singleton.
    intros [->|Hin]; [done|]. apply (Hpf k); [by right|done].
  - intros j k [[-> Hk]|[_ Hj]]%(processing_insert _ _ _ _ _ _ _ Hi).
    + injection Hk as <-. set_solver.
    + specialize (Hwf j k Hj). set_solver.
  - intros j j' k [[-> Hk]|[? Hj]]%(processing_insert _ _ _ _ _ _ _ Hi)
                  [[-> Hk']|[? Hj']]%(processing_insert _ _ _ _ _ _ _ Hi).
    + done.
    + injection Hk as <-. by destruct (Hfree j').
    + injection Hk' as <-. by destruct (Hfree j).
    + eauto.
Qed.

Lemma coherent_quit s i :
  workers s !! i = Some Idle →
  coherent s → coherent {| wq := wq s; workers := <[i := Gone]> (workers s) |}.
Proof.
  intros Hi (Hnd & Hpf & Hwf & Huniq).
  assert (Hsame : ∀ j k, processing {| wq := wq s; workers := <[i := Gone]> (workers s) |} j k
                         → processing s j k).
  { by intros j k [[-> Hk]|[_ ?]]%(processing_insert _ _ _ _ _ _ _ Hi). }
  unfold coherent. simpl. repeat split; eauto.
Qed.

Lemma coherent_done s i key :
  workers s !! i = Some (Finishing key) →
  coherent s →
  coherent {| wq := workqueue.done key (wq s); workers := <[i := Idle]> (workers s) |}.
Proof.
  intros Hi (Hnd & Hpf & Hwf & Huniq).
  assert (Hi' : processing s i key) by by exists (Finishing key).
  assert (Hothers : ∀ q j k, processing {| wq := q; workers := <[i := Idle]> (workers s) |} j k
                             → processing s j k ∧ k ≠ key).
  { intros q j k [[-> Hk]|[Hne Hj]]%(processing_insert _ _ _ _ _ _ _ Hi); [done|].
    split; [done|]. intros ->. by apply Hne, (Huniq j i key). }
  assert (Hkey : key ∉ workqueue.pending (wq s)).
  { intros Hin. apply (Hpf key Hin). eauto. }
  unfold workqueue.done.
  destruct (decide (key ∈ workqueue.buffered (wq s))); unfold coherent; simpl; repeat split.
  - apply NoDup_app. repeat split; [done| |apply NoDup_singleton].
    by intros k Hk ->%list_elem_of_singleton.
  - intros k [Hk| ->%list_elem_of_singleton]%elem_of_app; [|set_solver].
    specialize (Hpf k Hk). set_solver.
  - intros j k [Hj Hne]%Hothers. specialize (Hwf j k Hj). set_solver.
  - intros j j' k [Hj _]%Hothers [Hj' _]%Hothers. eauto.
  - done.
  - intros k Hk. specialize (Hpf k Hk). set_solver.
  - intros j k [Hj Hne]%Hothers. specialize (Hwf j k Hj). set_solver.
  - intros j j' k [Hj _]%Hothers [Hj' _]%Hothers. eauto.
Qed.

Lemma coherent_deliver s key q :
  workqueue.deliver key (wq s) = Some q →
  coherent s → coherent {| wq := q; workers := workers s |}.
Proof.
  unfold workqueue.deliver. intros Hq Hs.
  destruct (workqueue.unschedule key _) as [l|]; [|done].
  injection Hq as <-.
  by apply (coherent_add {| wq := _; workers := workers s |}), coherent_same_keys.
Qed.

Lemma fire_coherent a s s' : fire a s = Some s' → coherent s → coherent s'.
Proof.
  destruct a as [i|i|i|i|key|key|]; simpl.
  - destruct (workers s !! i) as [[| | |]|] eqn:Hi; try done.
    destruct (workqueue.get (wq s)) as [key q|q|] eqn:Hget; [| |done]; intros [= <-].
    + by apply coherent_get.
    + unfold workqueue.get in Hget.
      destruct (workqueue.pending (wq s)); [|done].
      destruct (workqueue.shuttingDown (wq s)); [|done].
      injection Hget as <-. by apply coherent_quit.
  - destruct (workers s !! i) as [[|key|key|]|] eqn:Hi; try done.
    intros [= <-]. by apply coherent_rephase.
  - destruct (workers s !! i) as [[|key|key|]|] eqn:Hi; try done.
    intros [= <-]. by apply coherent_rephase.
  - destruct (workers s !! i) as [[|key|key|]|] eqn:Hi; try done.
    intros [= <-]. by apply coherent_done.
  - intros [= <-]. apply coherent_add.
  - destruct (workqueue.deliver key (wq s)) as [q|] eqn:Hq; [|done].
    intros [= <-]. by eapply coherent_deliver.
  - intros [= <-]. by apply coherent_same_keys.
Qed.

Lemma run_coherent acts s s' : run acts s = Some s' → coherent s → coherent s'.
Proof.
  revert s. induction acts as [|a acts IH]; intros s; simpl.
  - by intros [= <-].
  - destruct (fire a s) as [s1|] eqn:Hfire; [|done]. simpl.
    intros Hrun Hs. eapply IH; [done|]. by eapply fire_coherent.
Qed.

(** One pass of [processNextWorkItem] over a key is the worker's three steps
    on the shared queue: [Get], then [Forget] or [AddRateLimited], then
    [Done]. *)
Lemma processNextWorkItem_steps {I C : Type} `{!Indexer I, !ClientInterface C, !KeyFunc}
    (o o' : Operator workqueue.t I C) :
  processNextWorkItem o = Some (true, o') →
  ∃ a, (a = WorkerForget 0 ∨ a = WorkerAddRateLimited 0) ∧
       run [WorkerGet 0; a; WorkerDone 0] {| wq := queue o; workers := [Idle] |} =
         Some {| wq := queue o'; workers := [Idle] |}.
Proof.
  intros Hp. destruct (Get (queue o)) as [key q|q|] eqn:Hget.
  - rewrite (processNextWorkItem_item key q) in Hp by done.
    injection Hp as <-.
    destruct (sync_frame key (after_Get q o)) as (Hq & _).
    simpl in Hget. simpl. rewrite Hget. simpl.
    destruct (sync key (after_Get q o)) as [[e|] o1]; simpl in *; rewrite Hq.
    + exists (WorkerAddRateLimited 0). split; [by right|done].
    + exists (WorkerForget 0). split; [by left|done].
  - unfold processNextWorkItem in Hp. by rewrite Hget in Hp.
  - unfold processNextWorkItem in Hp. by rewrite Hget in Hp.
Qed.

(** After that pass the key is no longer in flight. *)
Lemma processNextWorkItem_releases {I C : Type} `{!Indexer I, !ClientInterface C, !KeyFunc}
    (o o' : Operator workqueue.t I C) key q :
  Get (queue o) = Item key q →
  processNextWorkItem o = Some (true, o') →
  key ∉ workqueue.inFlight (queue o').
Proof.
  intros Hget Hp. rewrite (processNextWorkItem_item key q) in Hp by done.
  injection Hp as <-.
  assert (Hdone : ∀ q', key ∉ workqueue.inFlight (workqueue.done key q')).
  { intros q'. unfold workqueue.done.
    destruct (decide (key ∈ workqueue.buffered q')); simpl; set_solver. }
  destruct (sync key (after_Get q o)) as [[e|] o1]; simpl; apply Hdone.
Qed.

(** C9. In every state that [n] workers sharing one queue can reach, a key
    that one worker holds between its [Get] and its [Done] is held by no other
    worker, and [Get] cannot hand it out. *)
Theorem one_worker_per_key n acts s i key :
  run acts (start n) = Some s →
  processing s i key →
  (∀ j, processing s j key → j = i) ∧
  (∀ q, Get (wq s) ≠ Item key q).
Proof.
  intros Hrun Hi.
  destruct (run_coherent _ _ _ Hrun (coherent_start n)) as (Hnd & Hpf & Hwf & Huniq).
  split; [by eauto|].
  intros q Hget. simpl in Hget. unfold workqueue.get in Hget.
  destruct (workqueue.pending (wq s)) as [|k rest] eqn:Hpend;
    [by destruct (workqueue.shuttingDown (wq s))|].
  injection Hget as -> _.
  apply (Hpf key); [left|eauto].
Qed.
End Workers.

(** * The properties on the sample resources *)

(** [sync_missing_object] on a key the sample mirror does not hold. *)
Lemma sync_missing_object_witness :
  sync "ns1/gone" (operator []) = (None, logged [CallGetByKey "ns1/gone"] (operator [])).
Proof. apply (sync_missing_object _ _ (AnyValue VNil)). reflexivity. Defined.

(** [processNextWorkItem_protocol] on a key whose [sync] succeeds, on one whose
    [sync] fails, and on a queue that was shut down. *)
Lemma processNextWorkItem_protocol_witness :
  (∃ o2, processNextWorkItem (operator ["ns1/foo"]) = Some (true, o2) ∧
         trace o2 =
           [CallGet; CallGetByKey "ns1/foo";
            LogInfo [LStr "msg"; LStr "sync OperatorVersionSpec"; LStr "key"; LStr "ns1/foo"];
            CallInstall "ns1" (VSlice [VString "etcd"]);
            CallForget "ns1/foo"; CallDone "ns1/foo"]) ∧
  (∃ o2, processNextWorkItem (operator ["ns1/junk"]) = Some (true, o2) ∧
         trace o2 =
           [CallGet; CallGetByKey "ns1/junk";
            HandleError (Wrap (Errorf (text "casting OperatorVersionSpec failed"))
                              (Sprintf "Sync %q failed" ["ns1/junk"]));
            CallAddRateLimited "ns1/junk"; CallDone "ns1/junk"]) ∧
  (∃ n o_n q, n < 2 ∧ iterations n closing = Some o_n ∧ Get (queue o_n) = Quit q).
Proof.
  split; [|split].
  - destruct (proj1 (processNextWorkItem_protocol (operator ["ns1/foo"]))
                "ns1/foo" (handed_out "ns1/foo"))
      as (o2 & Hp & _ & Htrace & _); [vm_compute; reflexivity|].
    exists o2. split; [exact Hp|exact Htrace].
  - destruct (proj1 (processNextWorkItem_protocol (operator ["ns1/junk"]))
                "ns1/junk" (handed_out "ns1/junk"))
      as (o2 & Hp & _ & Htrace & _); [vm_compute; reflexivity|].
    exists o2. split; [exact Hp|exact Htrace].
  - edestruct (proj1 (proj2 (processNextWorkItem_protocol closing) 2 (worker 2 closing).2))
      as (n & o_n & q & Hn & Hit & Hq & _); [vm_compute; reflexivity|].
    exists n, o_n, q. split; [exact Hn|]. split; [exact Hit|exact Hq].
Defined.

(** [sync_other_strategy] on a resource with another strategy and on one whose
    discriminator is a number. *)
Lemma sync_other_strategy_witness :
  sync "ns1/helm" (operator []) =
    (None,
     logged [CallGetByKey "ns1/helm";
             LogInfo [LStr "msg"; LStr "sync OperatorVersionSpec"; LStr "key"; LStr "ns1/helm"]]
       (operator [])) ∧
  sync "ns1/odd" (operator []) =
    (Some (Errorf (text "casting strategy failed")),
     logged [CallGetByKey "ns1/odd";
             LogInfo [LStr "msg"; LStr "sync OperatorVersionSpec"; LStr "key"; LStr "ns1/odd"]]
       (operator [])).
Proof.
  split.
  - apply (sync_other_strategy "ns1/helm" (operator []) helm); [reflexivity|discriminate].
  - apply (sync_other_strategy "ns1/odd" (operator []) odd); [reflexivity|discriminate].
Defined.

(** C4 does not hold as first stated: a cached [OperatorVersion] whose
    strategy discriminator is the number 7, which is not "deployment", makes
    [sync] return an error. *)
Lemma sync_numeric_strategy_fails :
  GetByKey cached "ns1/odd" = (AnyOperatorVersion odd, true, None) ∧
  index (unstructured.UnstructuredContent (InstallStrategy (Spec odd))) "strategy" = VInt 7 ∧
  VInt 7 ≠ VString "deployment" ∧
  (sync "ns1/odd" (operator [])).1 = Some (Errorf (text "casting strategy failed")).
Proof. split; [reflexivity|]. split; [reflexivity|]. split; [discriminate|reflexivity]. Qed.

(** [cast_error_requeued] on the cached object that is not an
    [OperatorVersion]: a retry is scheduled after the base delay. *)
Lemma cast_error_requeued_witness :
  (sync "ns1/junk" (after_Get (handed_out "ns1/junk") (operator ["ns1/junk"]))).1 =
    Some (Errorf (text "casting OperatorVersionSpec failed")) ∧
  ∃ o', processNextWorkItem (operator ["ns1/junk"]) = Some (true, o') ∧
        trace o' =
          [CallGet; CallGetByKey "ns1/junk";
           HandleError (Wrap (Errorf (text "casting OperatorVersionSpec failed"))
                             (Sprintf "Sync %q failed" ["ns1/junk"]));
           CallAddRateLimited "ns1/junk"; CallDone "ns1/junk"] ∧
        workqueue.scheduled (queue o') = [("ns1/junk", 5%N)].
Proof.
  destruct (cast_error_requeued "ns1/junk" (handed_out "ns1/junk") (operator ["ns1/junk"])
              (VInt 3))
    as (Hsync & Hp & _); [vm_compute; reflexivity|reflexivity|].
  split; [exact Hsync|]. eexists. split; [exact Hp|].
  split; vm_compute; reflexivity.
Defined.

(** C2, on the code: the deployment [ns1/bad] is dequeued, the installer is
    called for it and fails, and the worker goes on to [Forget] the key: the
    failure is neither reported nor is the key added back with
    [AddRateLimited]. *)
Theorem install_failure_forgotten :
  GetByKey cached "ns1/bad" = (AnyOperatorVersion bad, true, None) ∧
  index (unstructured.UnstructuredContent (InstallStrategy (Spec bad))) "strategy" =
    VString "deployment" ∧
  (Install "ns1" VNil (opClient (operator ["ns1/bad"]))).1 =
    Some (Errorf (text "deployments is not a list")) ∧
  ∃ o', processNextWorkItem (operator ["ns1/bad"]) = Some (true, o') ∧
        trace o' =
          [CallGet; CallGetByKey "ns1/bad";
           LogInfo [LStr "msg"; LStr "sync OperatorVersionSpec"; LStr "key"; LStr "ns1/bad"];
           CallInstall "ns1" VNil;
           CallForget "ns1/bad"; CallDone "ns1/bad"] ∧
        workqueue.scheduled (queue o') = [] ∧
        workqueue.pending (queue o') = [].
Proof.
  do 3 (split; [vm_compute; reflexivity|]).
  exists (default (operator []) (snd <$> processNextWorkItem (operator ["ns1/bad"]))).
  split; [vm_compute; reflexivity|].
  split; [vm_compute; reflexivity|].
  split; vm_compute; reflexivity.
Qed.

(** [Run_startup_race] against a cluster that cannot be reached. *)
Lemma Run_startup_race_witness :
  Run FromErrChan stranded =
    (Some (Wrap (Errorf (text "connection refused")) (text "communicating with server failed")),
     {| queue := ShutDown (queue stranded); informer := informer stranded;
        opClient := opClient stranded; trace := [CallShutDown] |}) ∧
  (Run FromStopc stranded).1 = None.
Proof.
  destruct (Run_startup_race stranded) as [Hprobe Hstop].
  split.
  - exact (Hprobe "" (Errorf (text "connection refused")) eq_refl).
  - rewrite Hstop. reflexivity.
Defined.

(** [dispatch_add_only] on notifications about [ns1/foo]. *)
Lemma dispatch_add_only_witness :
  notify New_handlers (OnAdd (AnyOperatorVersion foo)) (operator []) =
    (tt, {| queue := Add "ns1/foo" workqueue.empty; informer := cached;
            opClient := {| down := false; installed := [] |};
            trace := [LogInfo [LStr "msg"; LStr "OperatorVersionSpec added";
                               LStr "key"; LStr "ns1/foo"];
                      CallAdd "ns1/foo"] |}) ∧
  notify New_handlers (OnDelete (AnyOperatorVersion foo)) (operator []) = (tt, operator []) ∧
  notify New_handlers (OnUpdate (AnyOperatorVersion foo) (AnyOperatorVersion bad)) (operator []) =
    (tt, operator []).
Proof.
  split; [|split].
  - exact (proj2 (proj2 (dispatch_add_only (OnAdd (AnyOperatorVersion foo)) (operator [])
                           eq_refl))).
  - exact (proj2 (proj2 (dispatch_add_only (OnDelete (AnyOperatorVersion foo)) (operator [])
                           eq_refl))).
  - exact (proj2 (proj2 (dispatch_add_only
                           (OnUpdate (AnyOperatorVersion foo) (AnyOperatorVersion bad))
                           (operator []) (conj eq_refl eq_refl)))).
Defined.

(** [done_exactly_once] on a key whose installation fails. *)
Lemma done_exactly_once_witness :
  ∃ o' evs q',
    processNextWorkItem (operator ["ns1/bad"]) = Some (true, o') ∧
    trace o' = trace (operator ["ns1/bad"]) ++ CallGet :: evs ++ [CallDone "ns1/bad"] ∧
    queue o' = Done "ns1/bad" q' ∧
    (∀ k, CallDone k ∉ evs) ∧ CallGet ∉ evs.
Proof.
  apply (done_exactly_once "ns1/bad" (handed_out "ns1/bad") (operator ["ns1/bad"])).
  vm_compute. reflexivity.
Defined.

(** [one_worker_per_key] with two workers, after [busy]. *)
Lemma one_worker_per_key_witness :
  run busy (start 2) = Some two_busy ∧
  processing two_busy 0 "ns1/foo" ∧
  (∀ j, processing two_busy j "ns1/foo" → j = 0) ∧
  (∀ q, Get (wq two_busy) ≠ Item "ns1/foo" q).
Proof.
  assert (Hrun : run busy (start 2) = Some two_busy) by (vm_compute; reflexivity).
  assert (Hfoo : processing two_busy 0 "ns1/foo") by (by exists (Syncing "ns1/foo")).
  split; [exact Hrun|]. split; [exact Hfoo|].
  exact (one_worker_per_key 2 busy two_busy 0 "ns1/foo" Hrun Hfoo).
Defined.

(** * Further properties of the controller *)

Section SyncFacts.
Context {Q I C : Type}.
Context `{!RateLimitingInterface Q, !Indexer I, !ClientInterface C, !KeyFunc}.
Implicit Types (o : Operator Q I C) (key : string).

Lemma install_calls_app (evs evs' : list event) :
  install_calls (evs ++ evs') = install_calls evs ++ install_calls evs'.
Proof.
  induction evs as [|e evs IH]; [done|].
  destruct e; simpl; by rewrite IH.
Qed.

(** X1. [sync] returns an error in exactly three cases: the lookup failed,
    and the error is the lookup's own; the object exists and is not an
    [OperatorVersion]; or it is one whose strategy discriminator is not a
    string.  What the installer returns is never among them. *)
Theorem sync_error_cases key o e :
  (sync key o).1 = Some e ↔
  (∃ obj found, GetByKey (informer o) key = (obj, found, Some e)) ∨
  (∃ v, GetByKey (informer o) key = (AnyValue v, true, None) ∧
        e = Errorf (text "casting OperatorVersionSpec failed")) ∨
  (∃ p, GetByKey (informer o) key = (AnyOperatorVersion p, true, None) ∧
        (∀ s, index (unstructured.UnstructuredContent (InstallStrategy (Spec p))) "strategy"
              ≠ VString s) ∧
        e = Errorf (text "casting strategy failed")).
Proof.
  rewrite sync_unfold.
  destruct (GetByKey (informer o) key) as [[[v|p] [|]] [e'|]]; simpl;
    try naive_solver.
  destruct (index _ "strategy") as [| s | | | |] eqn:Hs; simpl;
    try destruct (String.eqb s "deployment"); simpl; try naive_solver.
  all: split;
    [ intros [= <-]; right; right; exists p;
      split; [done|]; split; [intros s'; by rewrite Hs|done]
    | naive_solver ].
Qed.

(** X2. [sync] calls the installer exactly when the key's object exists, is
    an [OperatorVersion] and has the strategy "deployment": then it calls it
    once, with the object's namespace and the "deployments" entry of the
    strategy (nil when there is none), and the cluster is what that call
    leaves.  In every other case there is no installer call and the cluster
    is as it was. *)
Theorem install_only_for_deployment key o :
  ∃ evs, trace (sync key o).2 = trace o ++ evs ∧
    ((∃ p, let install := unstructured.UnstructuredContent (InstallStrategy (Spec p)) in
           let namespace := metav1.Namespace (ObjectMeta p) in
           GetByKey (informer o) key = (AnyOperatorVersion p, true, None) ∧
           index install "strategy" = VString "deployment" ∧
           install_calls evs = [(namespace, index install "deployments")] ∧
           opClient (sync key o).2 =
             (Install namespace (index install "deployments") (opClient o)).2) ∨
     ((∀ p, GetByKey (informer o) key = (AnyOperatorVersion p, true, None) →
            index (unstructured.UnstructuredContent (InstallStrategy (Spec p))) "strategy"
            ≠ VString "deployment") ∧
      install_calls evs = [] ∧
      opClient (sync key o).2 = opClient o)).
Proof.
  rewrite sync_unfold.
  destruct (GetByKey (informer o) key) as [[[v|p] [|]] [e'|]]; simpl;
    try (eexists; split; [done|]; right; by repeat split).
  destruct (index _ "strategy") as [| s | | | |] eqn:Hs; simpl;
    try (eexists; split; [done|]; right;
         (split; [intros ? [= <-]; by rewrite Hs|done])).
  destruct (String.eqb_spec s "deployment") as [->|Hne]; simpl.
  - eexists. split; [done|]. left. exists p. by rewrite Hs.
  - eexists. split; [done|]. right.
    split; [intros ? [= <-]; rewrite Hs; congruence|done].
Qed.

(** X3. When the lookup of a dequeued key fails, nothing else is looked at:
    whatever object the lookup also returned, there is no log line and no
    installer call; the worker reports the lookup's error, wrapped with the
    key, adds the key back with [AddRateLimited], marks it [Done] and goes on. *)
Theorem lookup_error_requeued key q o obj found e :
  Get (queue o) = Item key q →
  GetByKey (informer o) key = (obj, found, Some e) →
  processNextWorkItem o =
    Some (true,
          {| queue := Done key (AddRateLimited key q); informer := informer o;
             opClient := opClient o;
             trace := trace o ++ [CallGet; CallGetByKey key;
                                  HandleError (Wrap e (Sprintf "Sync %q failed" [key]));
                                  CallAddRateLimited key; CallDone key] |}).
Proof.
  intros Hget Hobj. rewrite (processNextWorkItem_item key q) by done.
  rewrite sync_unfold. simpl. rewrite Hobj.
  destruct obj, found; simpl; by rewrite <- !app_assoc.
Qed.

End SyncFacts.

Section LoopFacts.
Context {Q I C : Type}.
Context `{!RateLimitingInterface Q, !Indexer I, !ClientInterface C, !KeyFunc}.
Implicit Types (o : Operator Q I C) (key : string).

Ltac run_m :=
  unfold discovery_ServerVersion, queue_Add, queue_ShutDown, log_Info,
    on_opClient, on_queue, emit, bind, ret, logged in *;
  simpl in *.

(** X4. Enqueueing a resource is enqueueing its key: when the key function
    yields a key for an object that is neither nil nor itself a string,
    [enqueue] of the object does what [enqueue] of the key does, one [Add] of
    that key. *)
Theorem enqueue_object_as_key obj key o :
  obj ≠ AnyValue VNil →
  (∀ s, obj ≠ AnyValue (VString s)) →
  DeletionHandlingMetaNamespaceKeyFunc obj = (key, None) →
  enqueue obj o = enqueue (AnyValue (VString key)) o ∧
  enqueue obj o =
    (tt, {| queue := Add key (queue o); informer := informer o; opClient := opClient o;
            trace := trace o ++ [CallAdd key] |}).
Proof.
  intros Hnil Hstr Hkey.
  assert (Hobj : enqueue obj o =
                 (tt, {| queue := Add key (queue o); informer := informer o;
                         opClient := opClient o; trace := trace o ++ [CallAdd key] |})).
  { destruct obj as [[| s | | | |]|p]; try done; try (by destruct (Hstr s));
      unfold enqueue, keyFunc; rewrite Hkey; by run_m. }
  split; [|done]. rewrite Hobj. unfold enqueue. by run_m.
Qed.

(** X5. What [enqueue] leaves out of the queue: nil, for which it does
    nothing at all, and an object for which the key function fails, for which
    it only logs the failure.  A string is added as it is, whatever the key
    function would make of it. *)
Theorem enqueue_edge_cases o :
  enqueue (AnyValue VNil) o = (tt, o) ∧
  (∀ obj k e,
     obj ≠ AnyValue VNil → (∀ s, obj ≠ AnyValue (VString s)) →
     DeletionHandlingMetaNamespaceKeyFunc obj = (k, Some e) →
     enqueue obj o =
       (tt, logged [LogInfo [LStr "msg"; LStr "creating key failed"; LStr "err"; LErr e]] o)) ∧
  (∀ s, enqueue (AnyValue (VString s)) o =
          (tt, {| queue := Add s (queue o); informer := informer o; opClient := opClient o;
                  trace := trace o ++ [CallAdd s] |})).
Proof.
  split; [done|]. split.
  - intros obj k e Hnil Hstr Hkey.
    destruct obj as [[| s | | | |]|p]; try done; try (by destruct (Hstr s));
      unfold enqueue, keyFunc; rewrite Hkey; by run_m.
  - intros s. unfold enqueue. by run_m.
Qed.

(** X6. On every path of [Run], whichever case of the [select] fires and
    whatever the probe returns, [Run] calls [ShutDown] exactly once, and not
    before it has started what it starts and waited for the stop signal. *)
Theorem Run_shuts_down_once first o :
  ∃ before after,
    trace (Run first o).2 = trace o ++ before ++ CallShutDown :: after ∧
    (CallShutDown ∉ before) ∧ (CallShutDown ∉ after) ∧
    (GoWorker ∉ after) ∧ (GoInformerRun ∉ after) ∧ (AwaitStop ∉ after).
Proof.
  unfold Run, probe. run_m.
  assert (Hnil : ∀ e : event, e ∉ @nil event) by (intros e; apply not_elem_of_nil).
  destruct first.
  - destruct (ServerVersion (opClient o)) as [v [e|]]; simpl.
    + exists [], []. by repeat split.
    + eexists [_; _; _; _; _], []. rewrite <- !app_assoc. simpl.
      split; [done|]. split; [not_among|]. by repeat split.
  - exists [], []. by repeat split.
Qed.

(** X7. [Run] returns an error exactly when the [select] received the result
    of a failed probe, and the error is the probe's, wrapped; it starts the
    worker and the informer exactly when the [select] received the result of a
    successful probe, the worker first, and then waits for the stop signal. *)
Theorem Run_outcomes first o :
  (∀ e, (Run first o).1 = Some e ↔
        first = FromErrChan ∧
        ∃ cause, (ServerVersion (opClient o)).2 = Some cause ∧
                 e = Wrap cause (text "communicating with server failed")) ∧
  ∃ evs, trace (Run first o).2 = trace o ++ evs ∧
         (GoWorker ∈ evs ↔ first = FromErrChan ∧ (ServerVersion (opClient o)).2 = None) ∧
         (GoInformerRun ∈ evs ↔ GoWorker ∈ evs) ∧
         (GoWorker ∈ evs →
          ∃ pre post, evs = pre ++ [GoWorker; GoInformerRun; AwaitStop] ++ post ∧
                      (GoWorker ∉ pre) ∧ (GoWorker ∉ post)).
Proof.
  unfold Run, probe. run_m.
  destruct first; simpl.
  - destruct (ServerVersion (opClient o)) as [v [e'|]]; simpl.
    + split.
      { intros e. split; [intros [= <-]; eauto|]. by intros (_ & cause & [= <-] & ->). }
      exists [CallShutDown]. split; [done|].
      assert (Hw : GoWorker ∉ [CallShutDown]) by not_among.
      assert (Hi : GoInformerRun ∉ [CallShutDown]) by not_among.
      split; [split; [done|by intros [_ [=]]]|]. split; [done|]. done.
    + split.
      { intros e. split; [done|]. by intros (_ & cause & [=] & _). }
      eexists [_; _; _; _; _; _]. rewrite <- !app_assoc. simpl. split; [done|].
      assert (Hw : GoWorker ∈ [LogInfo [LStr "msg"; LStr "connection established";
                                         LStr "cluster-version"; LStr v];
                               LogInfo [LStr "msg"; LStr "Operator ready"];
                               GoWorker; GoInformerRun; AwaitStop; CallShutDown])
        by (do 2 right; left).
      assert (Hi : GoInformerRun ∈ [LogInfo [LStr "msg"; LStr "connection established";
                                              LStr "cluster-version"; LStr v];
                                    LogInfo [LStr "msg"; LStr "Operator ready"];
                                    GoWorker; GoInformerRun; AwaitStop; CallShutDown])
        by (do 3 right; left).
      split; [done|]. split; [done|]. intros _.
      exists [LogInfo [LStr "msg"; LStr "connection established";
                       LStr "cluster-version"; LStr v];
              LogInfo [LStr "msg"; LStr "Operator ready"]], [CallShutDown].
      split; [done|]. split; not_among.
  - split.
    { intros e. split; [done|]. by intros [[=] _]. }
    exists [CallShutDown]. split; [done|].
    assert (Hw : GoWorker ∉ [CallShutDown]) by not_among.
    assert (Hi : GoInformerRun ∉ [CallShutDown]) by not_among.
    split; [split; [done|by intros [[=] _]]|]. split; [done|]. done.
Qed.





(** X10. [processNextWorkItem] returns false exactly when [Get] reports
    shutdown, and has then made no call but that [Get]: [sync] is not run and
    nothing is marked [Done].  It cannot proceed exactly when [Get] blocks. *)
Theorem processNextWorkItem_shutdown o :
  (∀ o', processNextWorkItem o = Some (false, o') ↔
         ∃ q, Get (queue o) = Quit q ∧ o' = after_Get q o) ∧
  (processNextWorkItem o = None ↔ Get (queue o) = Blocks).
Proof.
  destruct (Get (queue o)) as [key q|q|] eqn:Hget.
  - rewrite (processNextWorkItem_item key q) by done. split; [|done].
    intros o'. split; [done|]. by intros (? & [=] & _).
  - unfold processNextWorkItem. rewrite Hget. split; [|done].
    intros o'. split; [intros [= <-]; eauto|]. by intros (? & [= <-] & ->).
  - unfold processNextWorkItem. rewrite Hget. split; [|done].
    intros o'. split; [done|]. by intros (? & [=] & _).
Qed.

(** [sync] starts with the lookup of its key. *)
Lemma sync_starts_with_lookup key o :
  ∃ evs, trace (sync key o).2 = trace o ++ CallGetByKey key :: evs.
Proof.
  rewrite sync_unfold.
  destruct (GetByKey (informer o) key) as [[[v|p] [|]] [e|]]; simpl; eauto.
  destruct (index _ "strategy") as [| s | | | |]; simpl; eauto.
  destruct (String.eqb s "deployment"); simpl; eauto.
Qed.

(** X11. From notification to reconciliation: after an add notification for
    an object with a key, if the queue then hands that key out, the worker's
    next pass looks up that very key in the mirror and ends with its [Done];
    between the handler's [Add] and the worker's [Get] nothing else is
    called. *)
Theorem added_then_processed obj key q o :
  DeletionHandlingMetaNamespaceKeyFunc obj = (key, None) →
  Get (Add key (queue o)) = Item key q →
  ∃ o' evs,
    processNextWorkItem (notify New_handlers (OnAdd obj) o).2 = Some (true, o') ∧
    trace o' =
      trace o ++
      [LogInfo [LStr "msg"; LStr "OperatorVersionSpec added"; LStr "key"; LStr key];
       CallAdd key; CallGet; CallGetByKey key] ++ evs ++ [CallDone key].
Proof.
  intros Hkey Hget.
  assert (Hnotify : notify New_handlers (OnAdd obj) o =
            (tt, {| queue := Add key (queue o); informer := informer o;
                    opClient := opClient o;
                    trace := trace o ++
                      [LogInfo [LStr "msg"; LStr "OperatorVersionSpec added";
                                LStr "key"; LStr key];
                       CallAdd key] |})).
  { simpl. unfold handleAddOperatorVersion, keyFunc, enqueue. rewrite Hkey.
    run_m. by rewrite <- !app_assoc. }
  rewrite Hnotify. simpl.
  rewrite (processNextWorkItem_item key q) by done.
  match goal with |- context [sync key ?o1] =>
    destruct (sync_starts_with_lookup key o1) as (evs & Htr);
    destruct (sync key o1) as [[e|] o2]
  end; simpl in *.
  - eexists _, (evs ++ [_; _]). split; [done|]. simpl. rewrite Htr.
    by rewrite <- !app_assoc.
  - eexists _, (evs ++ [_]). split; [done|]. simpl. rewrite Htr.
    by rewrite <- !app_assoc.
Qed.

End LoopFacts.

(** * The further properties on the sample resources *)

(** [lookup_error_requeued] on the operator whose mirror is out of order. *)
Lemma lookup_error_requeued_witness :
  ∃ o', processNextWorkItem cut_off = Some (true, o') ∧
        trace o' =
          [CallGet; CallGetByKey "ns1/foo";
           HandleError (Wrap (Errorf (text "index unavailable"))
                             (Sprintf "Sync %q failed" ["ns1/foo"]));
           CallAddRateLimited "ns1/foo"; CallDone "ns1/foo"].
Proof.
  eexists. split.
  - apply (lookup_error_requeued "ns1/foo" (handed_out "ns1/foo") cut_off
             (AnyValue VNil) false (Errorf (text "index unavailable")));
      [vm_compute; reflexivity|reflexivity].
  - reflexivity.
Defined.

(** [enqueue_object_as_key] on the resource [ns1/foo]. *)
Lemma enqueue_object_as_key_witness :
  enqueue (AnyOperatorVersion foo) (operator []) =
    enqueue (AnyValue (VString "ns1/foo")) (operator []) ∧
  enqueue (AnyOperatorVersion foo) (operator []) =
    (tt, {| queue := Add "ns1/foo" (queue (operator [])); informer := cached;
            opClient := {| down := false; installed := [] |};
            trace := [CallAdd "ns1/foo"] |}).
Proof.
  apply (enqueue_object_as_key (AnyOperatorVersion foo) "ns1/foo" (operator []));
    [discriminate|discriminate|reflexivity].
Defined.

(** [added_then_processed] on the resource [ns1/foo]: the pass in between
    is the installation of its deployments. *)
Lemma added_then_processed_witness :
  ∃ o' evs,
    processNextWorkItem (notify New_handlers (OnAdd (AnyOperatorVersion foo)) (operator [])).2 =
      Some (true, o') ∧
    trace o' =
      trace (operator []) ++
      [LogInfo [LStr "msg"; LStr "OperatorVersionSpec added"; LStr "key"; LStr "ns1/foo"];
       CallAdd "ns1/foo"; CallGet; CallGetByKey "ns1/foo"] ++ evs ++ [CallDone "ns1/foo"].
Proof.
  apply (added_then_processed (AnyOperatorVersion foo) "ns1/foo" (handed_out "ns1/foo")
           (operator []));
    [reflexivity|vm_compute; reflexivity].
Defined.

(** * The mirror under sharing *)

Section SharingFacts.
Context {Q I C : Type}.
Context `{!RateLimitingInterface Q, !Indexer I, !SharedIndexer I}.
Implicit Types (o : Operator Q I C) (key : string) (p : OperatorVersion).

Ltac share_m :=
  unfold shared.kubeDeployment_Install, informer_GetByKey, log_Info, on_informer, emit,
    bind, ret, logged in *;
  simpl in *.

Lemma index_reference (m : gmap string value) (k : string) :
  is_reference (index m k) = true → m !! k = Some (index m k).
Proof. unfold index. by destruct (m !! k). Qed.

Lemma with_deployments_same p :
  is_reference (index (unstructured.Object (InstallStrategy (Spec p))) "deployments") = true →
  with_deployments p (index (unstructured.Object (InstallStrategy (Spec p))) "deployments") = p.
Proof.
  intros Href%index_reference. destruct p as [meta [[m]]]. unfold with_deployments.
  simpl in *. by rewrite insert_id.
Qed.

(** What [sync] does under sharing, path by path. *)
Lemma shared_sync_unfold `{!InstallerByReference C} key o :
  shared.sync key o =
  match GetByKey (informer o) key with
  | (_, _, Some e) => (Some e, logged [CallGetByKey key] o)
  | (_, false, None) => (None, logged [CallGetByKey key] o)
  | (AnyValue _, true, None) =>
      (Some (Errorf (text "casting OperatorVersionSpec failed")), logged [CallGetByKey key] o)
  | (AnyOperatorVersion p, true, None) =>
      let install := unstructured.UnstructuredContent (InstallStrategy (Spec p)) in
      let said := LogInfo [LStr "msg"; LStr "sync OperatorVersionSpec"; LStr "key"; LStr key] in
      match index install "strategy" with
      | VString strategyString =>
          if String.eqb strategyString "deployment" then
            let namespace := metav1.Namespace (ObjectMeta p) in
            let payload := index install "deployments" in
            let returned := InstallByReference namespace payload (opClient o) in
            (None,
             {| queue := queue o;
                informer :=
                  if is_reference payload
                  then written_through key
                         (AnyOperatorVersion (with_deployments p returned.1.2)) (informer o)
                  else informer o;
                opClient := returned.2;
                trace := trace o ++ [CallGetByKey key; said; CallInstall namespace payload] |})
          else (None, logged [CallGetByKey key; said] o)
      | _ => (Some (Errorf (text "casting strategy failed")), logged [CallGetByKey key; said] o)
      end
  end.
Proof.
  unfold shared.sync. share_m.
  destruct (GetByKey (informer o) key) as [[[v|p] [|]] [e|]]; simpl; try done.
  rewrite <- !app_assoc; simpl.
  destruct (index _ "strategy") as [| s | | | |]; simpl; try done.
  destruct (String.eqb s "deployment"); simpl; [|done].
  destruct (InstallByReference _ _ _) as [[err after] c]; simpl.
  by rewrite <- !app_assoc.
Qed.

(** With an installer that leaves its payload as it was, [sync] under sharing
    is [sync]. *)
Lemma shared_sync_agrees `{!ClientInterface C} key o : shared.sync key o = sync key o.
Proof.
  rewrite shared_sync_unfold, sync_unfold.
  destruct (GetByKey (informer o) key) as [[[v|p] [|]] [e|]] eqn:Hget; simpl; try done.
  destruct (index _ "strategy") as [| s | | | |]; simpl; try done.
  destruct (String.eqb s "deployment"); simpl; [|done].
  destruct (Install _ _ _) as [err c]; simpl.
  destruct (is_reference _) eqn:Href; [|done].
  by rewrite with_deployments_same, (written_through_same _ _ _ Hget).
Qed.


End SharingFacts.

